(** * create-ranger-services.py: registration of the development services

    A shallow embedding of
    [dev-support/ranger-docker/scripts/create-ranger-services.py].
    The script builds eight [RangerService] descriptors, and for each of them
    asks the Ranger server whether a service of that name exists and creates
    it when it does not.  The Ranger client is outside the script: it is a
    parameter here, a pair of state-transforming operations that either
    return a value or raise.  A run of the script is a computation that
    threads the client's state, collects the calls it makes and the lines it
    prints, and ends normally or with an exception that escaped. *)

From stdpp Require Import base numbers list strings.

Open Scope string_scope.
Open Scope list_scope.

(** ** Python values *)

(** The classes the script's [except] clauses name, and the root of the
    hierarchy.  An exception object is tagged with the most specific of the
    three it is an instance of: [JSONDecodeError] for a JSON decode failure,
    [Exception] for any other ordinary exception (a connection error, a
    [RangerServiceException]), [BaseException] for the ones outside
    [Exception] ([KeyboardInterrupt], [SystemExit]). *)
Inductive pyclass :=
| JSONDecodeError
| Exception
| BaseException.

(** [JSONDecodeError <: ValueError <: Exception <: BaseException]. *)
Definition issubclass (c d : pyclass) : bool :=
  match c, d with
  | _, BaseException => true
  | JSONDecodeError, _ => true
  | Exception, Exception => true
  | _, _ => false
  end.

(** An exception object: its class and the text [str(e)] gives. *)
Record exn := { exn_class : pyclass; exn_str : string }.

Definition isinstance (e : exn) (c : pyclass) : bool :=
  issubclass (exn_class e) c.

(** Modelled from the spec: the class [RangerService] of the apache_ranger
    package, which the script only constructs from a dict literal and reads
    the [name] of.  It carries a name, a type tag and the configuration
    entries in the order the dict literal lists them. *)
Record RangerService := {
  name : string;
  type : string;
  configs : list (string * string)
}.

(** The outcome of a call: a value, or an exception in flight. *)
Inductive result (A : Type) :=
| Ok (a : A)
| Raise (e : exn).
Arguments Ok {A} a.
Arguments Raise {A} e.

(** ** The Ranger client

    [RangerClient('http://ranger:6080', ...)] is the script's one global.
    Its two methods talk to the server; [St] is whatever the client and the
    server behind it remember between calls.  [get_service] yields the
    service, [None] when the server has none of that name, or raises;
    [create_service] yields what the server answers, or raises. *)
Record RangerClient (St : Type) := {
  get_service : string → St → result (option RangerService) * St;
  create_service : RangerService → St → result (option RangerService) * St
}.
Arguments get_service {St} _ _ _.
Arguments create_service {St} _ _ _.

(** ** What a run does, in order *)
Inductive event :=
| Lookup (n : string) (r : result (option RangerService))
| Create (service : RangerService) (r : result (option RangerService))
| Print (line : string).

(** A computation: from the client state to an outcome, the new client
    state and the events of this stretch of the run. *)
Definition M (St A : Type) : Type := St → result A * St * list event.

Definition ret {St A} (a : A) : M St A := fun s => (Ok a, s, []).

Definition bind {St A B} (m : M St A) (k : A → M St B) : M St B :=
  fun s =>
    match m s with
    | (Ok a, s1, t1) => let '(r, s2, t2) := k a s1 in (r, s2, t1 ++ t2)
    | (Raise e, s1, t1) => (Raise e, s1, t1)
    end.

Notation "x <- m ;; k" := (bind m (fun x => k))
  (at level 100, m at next level, right associativity).
Notation "m ;;; k" := (bind m (fun _ => k))
  (at level 100, right associativity).

(** [try: m / except cls as e: h e], followed by [k] when the [try] block
    ends without raising.  The effects of [m] stay; an exception that is not
    an instance of [cls] goes on to the caller, and so does one raised by
    the handler or by [k]. *)
Definition try_except {St A B} (m : M St A) (cls : pyclass)
    (h : exn → M St B) (k : A → M St B) : M St B :=
  fun s =>
    match m s with
    | (Ok a, s1, t1) => let '(r, s2, t2) := k a s1 in (r, s2, t1 ++ t2)
    | (Raise e, s1, t1) =>
        if isinstance e cls
        then let '(r, s2, t2) := h e s1 in (r, s2, t1 ++ t2)
        else (Raise e, s1, t1)
    end.

(** [for x in l: body x]. *)
Fixpoint for_each {St A} (l : list A) (body : A → M St unit) : M St unit :=
  match l with
  | [] => ret tt
  | x :: l' => body x ;;; for_each l' body
  end.

Definition print {St} (line : string) : M St unit :=
  fun s => (Ok tt, s, [Print line]).

Definition call_get_service {St} (c : RangerClient St) (n : string)
    : M St (option RangerService) :=
  fun s => let '(r, s') := get_service c n s in (r, s', [Lookup n r]).

Definition call_create_service {St} (c : RangerClient St)
    (service : RangerService) : M St (option RangerService) :=
  fun s => let '(r, s') := create_service c service s in
           (r, s', [Create service r]).

(** Truth value of a Python int. *)
Definition truthy (z : Z) : bool := negb (z =? 0)%Z.

(** ** The script *)

(** [[
def service_not_exists(service):
    try:
        svc = ranger_client.get_service(service.name)
    except JSONDecodeError:
        return 1
    return 0 if svc is not None else 1
]] *)
Definition service_not_exists {St} (ranger_client : RangerClient St)
    (service : RangerService) : M St Z :=
  try_except (call_get_service ranger_client (name service))
    JSONDecodeError
    (fun _ => ret 1%Z)
    (fun svc => ret (if svc is Some _ then 0%Z else 1%Z)).

Definition hdfs : RangerService :=
  {| name := "dev_hdfs"; type := "hdfs";
     configs := [("username", "hdfs"); ("password", "hdfs");
                 ("fs.default.name", "hdfs://ranger-hadoop:9000");
                 ("hadoop.security.authentication", "simple");
                 ("hadoop.security.authorization", "true")] |}.

Definition hive : RangerService :=
  {| name := "dev_hive"; type := "hive";
     configs := [("username", "hive"); ("password", "hive");
                 ("jdbc.driverClassName", "org.apache.hive.jdbc.HiveDriver");
                 ("jdbc.url", "jdbc:hive2://ranger-hive:10000");
                 ("hadoop.security.authorization", "true")] |}.

Definition kafka : RangerService :=
  {| name := "dev_kafka"; type := "kafka";
     configs := [("username", "kafka"); ("password", "kafka");
                 ("zookeeper.connect", "ranger-zk.example.com:2181")] |}.

Definition knox : RangerService :=
  {| name := "dev_knox"; type := "knox";
     configs := [("username", "knox"); ("password", "knox");
                 ("knox.url", "https://ranger-knox:8443")] |}.

Definition yarn : RangerService :=
  {| name := "dev_yarn"; type := "yarn";
     configs := [("username", "yarn"); ("password", "yarn");
                 ("yarn.url", "http://ranger-hadoop:8088")] |}.

Definition hbase : RangerService :=
  {| name := "dev_hbase"; type := "hbase";
     configs := [("username", "hbase"); ("password", "hbase");
                 ("hadoop.security.authentication", "simple");
                 ("hbase.security.authentication", "simple");
                 ("hadoop.security.authorization", "true");
                 ("hbase.zookeeper.property.clientPort", "2181");
                 ("hbase.zookeeper.quorum", "ranger-zk");
                 ("zookeeper.znode.parent", "/hbase")] |}.

Definition kms : RangerService :=
  {| name := "dev_kms"; type := "kms";
     configs := [("username", "keyadmin"); ("password", "rangerR0cks!");
                 ("provider", "http://ranger-kms:9292")] |}.

Definition trino : RangerService :=
  {| name := "dev_trino"; type := "trino";
     configs := [("username", "trino"); ("password", "trino");
                 ("jdbc.driverClassName", "io.trino.jdbc.TrinoDriver");
                 ("jdbc.url", "jdbc:trino://ranger-trino:8080")] |}.

Definition services : list RangerService :=
  [hdfs; yarn; hive; hbase; kafka; knox; kms; trino].

(** The two lines the script prints. *)
Definition created_line (service : RangerService) : string :=
  " " +:+ name service +:+ " service created!".

Definition exception_line (e : exn) : string :=
  "An exception occured: " +:+ exn_str e.

(** The body of the loop, for one descriptor:
[[
    try:
        if service_not_exists(service):
            ranger_client.create_service(service)
            print(f" {service.name} service created!")
    except Exception as e:
        print(f"An exception occured: {e}")
]] *)
Definition check_or_create {St} (ranger_client : RangerClient St)
    (service : RangerService) : M St unit :=
  absent <- service_not_exists ranger_client service ;;
  if truthy absent
  then call_create_service ranger_client service ;;;
       print (created_line service)
  else ret tt.

Definition process {St} (ranger_client : RangerClient St)
    (service : RangerService) : M St unit :=
  try_except (check_or_create ranger_client service)
    Exception
    (fun e => print (exception_line e))
    ret.

(** [for service in services: ...], over any catalog. *)
Definition register_all {St} (ranger_client : RangerClient St)
    (catalog : list RangerService) : M St unit :=
  for_each catalog (process ranger_client).

(** The script's loop over its own catalog. *)
Definition main {St} (ranger_client : RangerClient St) : M St unit :=
  register_all ranger_client services.

(** ** Reading a run *)

Definition outcome {St A} (x : result A * St * list event) : result A :=
  x.1.1.
Definition final {St A} (x : result A * St * list event) : St :=
  x.1.2.
Definition events {St A} (x : result A * St * list event) : list event :=
  x.2.

(** The names looked up, the services submitted for creation and the lines
    printed, each in the order of the run. *)
Definition lookups (t : list event) : list string :=
  omap (fun ev => if ev is Lookup n _ then Some n else None) t.

Definition creations (t : list event) : list RangerService :=
  omap (fun ev => if ev is Create service _ then Some service else None) t.

Definition stdout (t : list event) : list string :=
  omap (fun ev => if ev is Print line then Some line else None) t.

(** What the client answered, call by call. *)
Inductive response :=
| LookupResult (r : result (option RangerService))
| CreateResult (r : result (option RangerService)).

Definition responses (t : list event) : list response :=
  omap (fun ev => match ev with
                  | Lookup _ r => Some (LookupResult r)
                  | Create _ r => Some (CreateResult r)
                  | Print _ => None
                  end) t.

(** ** Clients to run the script against *)

Definition has_name (n : string) (service : RangerService) : bool :=
  String.eqb (name service) n.

(** A server that keeps the services registered so far and refuses a second
    service of a name it has. *)
Definition recording_server : RangerClient (list RangerService) :=
  {| get_service n registered := (Ok (find (has_name n) registered), registered);
     create_service service registered :=
       if existsb (has_name (name service)) registered
       then (Raise {| exn_class := Exception;
                      exn_str := "Duplicate service name" |}, registered)
       else (Ok (Some service), registered ++ [service]) |}.

(** A server that knows no service and forgets every creation. *)
Definition forgetful_server : RangerClient unit :=
  {| get_service _ s := (Ok None, s);
     create_service service s := (Ok (Some service), s) |}.

Definition keyboard_interrupt : exn :=
  {| exn_class := BaseException; exn_str := "" |}.

(** The operator presses Ctrl-C while a lookup is waiting for the server. *)
Definition interrupted_lookup : RangerClient unit :=
  {| get_service _ s := (Raise keyboard_interrupt, s);
     create_service service s := (Ok (Some service), s) |}.

(** The same while a creation is waiting. *)
Definition interrupted_creation : RangerClient unit :=
  {| get_service _ s := (Ok None, s);
     create_service _ s := (Raise keyboard_interrupt, s) |}.

Definition decode_error : exn :=
  {| exn_class := JSONDecodeError;
     exn_str := "Expecting value: line 1 column 1 (char 0)" |}.

Definition connection_error : exn :=
  {| exn_class := Exception; exn_str := "Connection refused" |}.

Definition server_error : exn :=
  {| exn_class := Exception; exn_str := "Internal Server Error (500)" |}.

(** A server whose lookup answers with a body that is not JSON while the
    flag is set, and with "not found" once it is cleared. *)
Definition garbling_server : RangerClient bool :=
  {| get_service _ (garbled : bool) :=
       (if garbled then Raise decode_error else Ok None, false);
     create_service service s := (Ok (Some service), s) |}.

(** A server that cannot be reached. *)
Definition unreachable_server : RangerClient unit :=
  {| get_service _ s := (Raise connection_error, s);
     create_service _ s := (Raise connection_error, s) |}.

(** A server that knows no service and rejects the creation of [dev_knox]. *)
Definition knox_rejecting_server : RangerClient unit :=
  {| get_service _ s := (Ok None, s);
     create_service service s :=
       if String.eqb (name service) "dev_knox"
       then (Raise server_error, s)
       else (Ok (Some service), s) |}.

(** A client that only ever raises instances of [Exception]. *)
Definition raises_only_Exception {St} (c : RangerClient St) : Prop :=
  (∀ n s e,
     (get_service c n s).1 = Raise e → isinstance e Exception = true) ∧
  (∀ service s e,
     (create_service c service s).1 = Raise e →
     isinstance e Exception = true).

(** An answer of a server that has nothing registered and accepts what it
    is sent: "not found" to a lookup, success to a creation. *)
Definition not_found_or_created (ev : event) : bool :=
  match ev with
  | Lookup _ (Ok None) => true
  | Lookup _ _ => false
  | Create _ (Ok _) => true
  | Create _ (Raise _) => false
  | Print _ => true
  end.

(** ** Reading the calls of a run *)

(** A lookup result after which the existence check answers 1: no service
    of the name, or a body that could not be decoded. *)
Definition reports_absent (r : result (option RangerService)) : bool :=
  match r with
  | Ok None => true
  | Ok (Some _) => false
  | Raise e => isinstance e JSONDecodeError
  end.

(** The exception a call of the client ended with, if it raised. *)
Definition raised_by (ev : event) : option exn :=
  match ev with
  | Lookup _ (Raise e) => Some e
  | Create _ (Raise e) => Some e
  | _ => None
  end.

(** A call that returned, or a line printed. *)
Definition answered (ev : event) : bool :=
  if raised_by ev is Some _ then false else true.

(** The names whose lookup answered "not found". *)
Definition absent_lookups (t : list event) : list string :=
  omap (fun ev => if ev is Lookup n (Ok None) then Some n else None) t.

(** The line a call of the client is followed by, if any: the "created"
    line after a creation that returned, the exception line after a call
    that raised an instance of [Exception] which the existence check did
    not take for "absent". *)
Definition line_after (ev : event) : option string :=
  match ev with
  | Lookup _ (Raise e) =>
      if isinstance e JSONDecodeError then None
      else if isinstance e Exception then Some (exception_line e)
           else None
  | Lookup _ (Ok _) => None
  | Create service (Ok _) => Some (created_line service)
  | Create _ (Raise e) =>
      if isinstance e Exception then Some (exception_line e) else None
  | Print _ => None
  end.

(** Every creation call of a trace comes right after a lookup of the same
    name that counted as "absent". *)
Definition checked_before_created (t : list event) : Prop :=
  ∀ t1 service r t2,
    t = t1 ++ Create service r :: t2 →
    ∃ t0 r0, t1 = t0 ++ [Lookup (name service) r0] ∧
             reports_absent r0 = true.

(** A client behind which registrations last: some set of names, kept by
    every call, whose members every lookup finds and which every creation
    that returns adds the created name to. *)
Definition durable {St} (c : RangerClient St)
    (registered : St → string → Prop) : Prop :=
  (∀ n s, registered s n →
          ∃ found, (get_service c n s).1 = Ok (Some found)) ∧
  (∀ n m s, registered s m → registered (get_service c n s).2 m) ∧
  (∀ service m s,
     registered s m → registered (create_service c service s).2 m) ∧
  (∀ service s v,
     (create_service c service s).1 = Ok v →
     registered (create_service c service s).2 (name service)).

(** What the recording server has registered. *)
Definition recorded (registered : list RangerService) (n : string) : Prop :=
  existsb (has_name n) registered = true.

(** ** What the loop body does, case by case *)

(** The creation attempt that follows a lookup [r] which counted as
    "absent". *)
Definition attempt {St} (c : RangerClient St) (service : RangerService)
    (r : result (option RangerService)) (s1 : St)
    : result unit * St * list event :=
  let '(r', s2) := create_service c service s1 in
  let called := [Lookup (name service) r; Create service r'] in
  match r' with
  | Ok _ => (Ok tt, s2, called ++ [Print (created_line service)])
  | Raise e =>
      if isinstance e Exception
      then (Ok tt, s2, called ++ [Print (exception_line e)])
      else (Raise e, s2, called)
  end.

Lemma service_not_exists_eq {St} (c : RangerClient St) service s :
  service_not_exists c service s =
  let '(r, s1) := get_service c (name service) s in
  let t := [Lookup (name service) r] in
  match r with
  | Ok (Some _) => (Ok 0%Z, s1, t)
  | Ok None => (Ok 1%Z, s1, t)
  | Raise e =>
      if isinstance e JSONDecodeError then (Ok 1%Z, s1, t)
      else (Raise e, s1, t)
  end.
Proof.
  unfold service_not_exists, try_except, call_get_service.
  destruct (get_service c (name service) s) as [[[v|]|e] s1]; simpl; try done.
Qed.

Lemma process_eq {St} (c : RangerClient St) service s :
  process c service s =
  let '(r, s1) := get_service c (name service) s in
  match r with
  | Ok (Some _) => (Ok tt, s1, [Lookup (name service) r])
  | Ok None => attempt c service r s1
  | Raise e =>
      if isinstance e JSONDecodeError then attempt c service r s1
      else if isinstance e Exception
           then (Ok tt, s1, [Lookup (name service) r;
                             Print (exception_line e)])
           else (Raise e, s1, [Lookup (name service) r])
  end.
Proof.
  unfold process, check_or_create, try_except, bind at 1.
  rewrite service_not_exists_eq.
  unfold attempt, bind, call_create_service, print, ret.
  destruct (get_service c (name service) s) as [[[v|]|e] s1]; simpl.
  - done.
  - destruct (create_service c service s1) as [[v|e] s2]; simpl; [done|].
    by destruct (isinstance e Exception).
  - destruct (isinstance e JSONDecodeError); simpl.
    + destruct (create_service c service s1) as [[v|e'] s2]; simpl; [done|].
      by destruct (isinstance e' Exception).
    + by destruct (isinstance e Exception).
Qed.

Example run_on_empty_server :
  stdout (events (main recording_server [])) =
  [" dev_hdfs service created!"; " dev_yarn service created!";
   " dev_hive service created!"; " dev_hbase service created!";
   " dev_kafka service created!"; " dev_knox service created!";
   " dev_kms service created!"; " dev_trino service created!"].
Proof. reflexivity. Qed.

Example run_with_hdfs_and_kafka :
  creations (events (main recording_server [hdfs; kafka])) =
  [yarn; hive; hbase; knox; kms; trino].
Proof. reflexivity. Qed.

Example run_with_knox_rejected :
  let run := main knox_rejecting_server tt in
  outcome run = Ok tt ∧
  stdout (events run) =
  [" dev_hdfs service created!"; " dev_yarn service created!";
   " dev_hive service created!"; " dev_hbase service created!";
   " dev_kafka service created!";
   "An exception occured: Internal Server Error (500)";
   " dev_kms service created!"; " dev_trino service created!"].
Proof. split; reflexivity. Qed.

(** ** The loop *)

Section Loop.
Context {St : Type} (c : RangerClient St).

Lemma register_all_cons service catalog s :
  register_all c (service :: catalog) s =
  match process c service s with
  | (Ok _, s1, t1) =>
      let '(r, s2, t2) := register_all c catalog s1 in (r, s2, t1 ++ t2)
  | (Raise e, s1, t1) => (Raise e, s1, t1)
  end.
Proof. reflexivity. Qed.

(** Once the first part of a catalog went through, the run goes on with
    the rest from the state the first part left. *)
Lemma register_all_app before after s s0 t0 :
  register_all c before s = (Ok tt, s0, t0) →
  register_all c (before ++ after) s =
  let '(r, s2, t2) := register_all c after s0 in (r, s2, t0 ++ t2).
Proof.
  revert s t0. induction before as [|x before IH]; intros s t0 H.
  - injection H as <- <-. simpl.
    by destruct (register_all c after s) as [[r s2] t2].
  - simpl app. rewrite register_all_cons in H |- *.
    destruct (process c x s) as [[[[]|e] s1] t1]; [|done].
    destruct (register_all c before s1) as [[r' s'] t'] eqn:E.
    injection H as -> -> <-.
    rewrite (IH _ _ E).
    destruct (register_all c after s0) as [[r s2] t2].
    by rewrite (assoc_L (++)).
Qed.

(** One pass of the loop body looks the service up once, and calls the
    creation at most once, for this very service. *)
Lemma process_lookups service s :
  lookups (events (process c service s)) = [name service].
Proof.
  rewrite process_eq. unfold attempt.
  destruct (get_service c (name service) s) as [[[v|]|e] s1];
    repeat case_match; done.
Qed.

Lemma process_creations service s :
  creations (events (process c service s)) = [] ∨
  creations (events (process c service s)) = [service].
Proof.
  rewrite process_eq. unfold attempt.
  destruct (get_service c (name service) s) as [[[v|]|e] s1];
    repeat case_match; auto.
Qed.

Lemma events_register_all_cons service catalog s :
  ∃ t2, events (register_all c (service :: catalog) s) =
        events (process c service s) ++ t2 ∧
        (t2 = [] ∨
         ∃ s1, t2 = events (register_all c catalog s1)).
Proof.
  rewrite register_all_cons.
  destruct (process c service s) as [[[[]|e] s1] t1].
  - destruct (register_all c catalog s1) as [[r s2] t2] eqn:E.
    exists t2. split; [done|]. right. exists s1. by rewrite E.
  - exists []. split; [by rewrite (right_id_L [] (++))|by left].
Qed.

(** The names are looked up in catalog order, up to the point where the
    run stops. *)
Lemma register_all_lookups catalog s :
  lookups (events (register_all c catalog s)) `prefix_of`
  (name <$> catalog).
Proof.
  revert s. induction catalog as [|x l IH]; intros s.
  - by exists [].
  - destruct (events_register_all_cons x l s) as (t2 & -> & Ht2).
    unfold lookups at 1. rewrite omap_app. fold (lookups t2).
    fold (lookups (events (process c x s))). rewrite process_lookups.
    simpl. apply prefix_cons.
    destruct Ht2 as [->|[s1 ->]]; [apply prefix_nil|apply IH].
Qed.

(** The services submitted for creation are picked from the catalog, in
    its order. *)
Lemma register_all_creations catalog s :
  creations (events (register_all c catalog s)) `sublist_of` catalog.
Proof.
  revert s. induction catalog as [|x l IH]; intros s.
  - done.
  - destruct (events_register_all_cons x l s) as (t2 & -> & Ht2).
    unfold creations at 1. rewrite omap_app. fold (creations t2).
    fold (creations (events (process c x s))).
    assert (creations t2 `sublist_of` l) as Hl.
    { destruct Ht2 as [->|[s1 ->]]; [apply sublist_nil_l|apply IH]. }
    destruct (process_creations x s) as [-> | ->]; simpl.
    + by apply sublist_cons.
    + by apply sublist_skip.
Qed.

(** Against such a client the loop body never lets anything out, and the
    loop reaches every descriptor. *)
Lemma process_contained service s :
  raises_only_Exception c → outcome (process c service s) = Ok tt.
Proof.
  intros [Hget Hcreate]. rewrite process_eq. unfold attempt.
  specialize (Hget (name service) s).
  destruct (get_service c (name service) s) as [[[v|]|e] s1]; simpl in *.
  - done.
  - specialize (Hcreate service s1).
    destruct (create_service c service s1) as [[v|e] s2]; simpl in *;
      [done|]. by rewrite (Hcreate e eq_refl).
  - rewrite (Hget e eq_refl).
    destruct (isinstance e JSONDecodeError); [|done].
    specialize (Hcreate service s1).
    destruct (create_service c service s1) as [[v|e'] s2]; simpl in *;
      [done|]. by rewrite (Hcreate e' eq_refl).
Qed.

Lemma register_all_contained catalog s :
  raises_only_Exception c →
  outcome (register_all c catalog s) = Ok tt ∧
  lookups (events (register_all c catalog s)) = name <$> catalog.
Proof.
  intros Hc. revert s. induction catalog as [|x l IH]; intros s; [done|].
  rewrite register_all_cons.
  pose proof (process_contained x s Hc) as Hout.
  pose proof (process_lookups x s) as Hlk.
  destruct (process c x s) as [[[[]|e] s1] t1]; [|done].
  destruct (IH s1) as [IHo IHl].
  destruct (register_all c l s1) as [[r s2] t2]. simpl in *.
  split; [done|].
  unfold lookups. rewrite omap_app. fold (lookups t1) (lookups t2).
  by rewrite Hlk, IHl.
Qed.

End Loop.

(** ** The catalog *)

Lemma catalog_names_NoDup : NoDup (name <$> services).
Proof.
  unfold services. simpl.
  repeat (apply NoDup_cons; split;
          [rewrite ?elem_of_cons, elem_of_nil; intros H;
           repeat destruct H as [H|H]; done|]).
  apply NoDup_nil_2.
Qed.

(** C6.  The eight entries of the catalog have pairwise distinct names. *)
Theorem names_pairwise_distinct : NoDup (name <$> services).
Proof.
  apply (bool_decide_unpack _). vm_compute. reflexivity.
Qed.

(** C5, as the spec lists the names: this is the order in which the script
    defines the descriptors, not the order of the list [services].  On a
    server without services the second creation is [dev_yarn], where the
    spec's order has [dev_hive]. *)
Lemma catalog_order_not_as_listed :
  name <$> services ≠
    ["dev_hdfs"; "dev_hive"; "dev_kafka"; "dev_knox";
     "dev_yarn"; "dev_hbase"; "dev_kms"; "dev_trino"] ∧
  name <$> creations (events (main recording_server [])) ≠
    ["dev_hdfs"; "dev_hive"; "dev_kafka"; "dev_knox";
     "dev_yarn"; "dev_hbase"; "dev_kms"; "dev_trino"].
Proof. split; discriminate. Qed.

(** C5, amended.  The catalog is a fixed sequence of exactly eight
    descriptors whose names are, in catalog order, dev_hdfs, dev_yarn,
    dev_hive, dev_hbase, dev_kafka, dev_knox, dev_kms, dev_trino; and this
    order is the order of the registration attempts: whatever the client
    does, the names looked up are an initial stretch of the catalog's names
    and the services submitted for creation are picked from the catalog in
    its order. *)
Theorem catalog_order :
  length services = 8 ∧
  name <$> services =
    ["dev_hdfs"; "dev_yarn"; "dev_hive"; "dev_hbase";
     "dev_kafka"; "dev_knox"; "dev_kms"; "dev_trino"] ∧
  ∀ St (c : RangerClient St) (s : St),
    lookups (events (main c s)) `prefix_of` (name <$> services) ∧
    creations (events (main c s)) `sublist_of` services.
Proof.
  split; [reflexivity|]. split; [reflexivity|].
  intros St c s. split.
  - apply register_all_lookups.
  - apply register_all_creations.
Qed.

(** ** Failures of one descriptor *)

(** C1, as stated for every behaviour of the client: a lookup interrupted
    from the keyboard raises [KeyboardInterrupt], which is no instance of
    [Exception].  The handler of the loop body lets it through: the run
    ends with it after the first lookup, nothing is printed and the other
    seven descriptors are not looked at. *)
Lemma interrupt_escapes_loop :
  outcome (main interrupted_lookup tt) = Raise keyboard_interrupt ∧
  lookups (events (main interrupted_lookup tt)) = ["dev_hdfs"] ∧
  stdout (events (main interrupted_lookup tt)) = [].
Proof. repeat split. Qed.

(** C1, amended.  For every catalog and every behaviour of the client, if
    the check-or-create step of a descriptor raises an exception that is an
    instance of [Exception], the loop body catches it and prints one line,
    "An exception occured: " followed by the exception's text, after what
    the step had done; and the run goes on with the descriptors after it,
    from the state the failed step left.  Against a client that raises
    nothing but instances of [Exception], no exception leaves the loop and
    every descriptor of the catalog is looked up, in catalog order. *)
Theorem failure_contained {St} (c : RangerClient St)
    (before : list RangerService) (service : RangerService)
    (after : list RangerService) (s s0 s1 : St) (t0 t1 : list event)
    (e : exn) :
  register_all c before s = (Ok tt, s0, t0) →
  check_or_create c service s0 = (Raise e, s1, t1) →
  isinstance e Exception = true →
  process c service s0 =
    (Ok tt, s1, t1 ++ [Print ("An exception occured: " +:+ exn_str e)]) ∧
  register_all c (before ++ service :: after) s =
    (let '(r, s2, t2) := register_all c after s1 in
     (r, s2,
      t0 ++ (t1 ++ [Print ("An exception occured: " +:+ exn_str e)]) ++ t2)) ∧
  (raises_only_Exception c →
   outcome (register_all c (before ++ service :: after) s) = Ok tt ∧
   lookups (events (register_all c (before ++ service :: after) s)) =
     name <$> (before ++ service :: after)).
Proof.
  intros Hbefore Hstep He.
  assert (process c service s0 =
          (Ok tt, s1, t1 ++ [Print (exception_line e)])) as Hp.
  { unfold process, try_except. rewrite Hstep, He. reflexivity. }
  split; [exact Hp|]. split.
  - rewrite (register_all_app c before (service :: after) s s0 t0 Hbefore).
    rewrite register_all_cons, Hp.
    destruct (register_all c after s1) as [[r s2] t2]. reflexivity.
  - apply register_all_contained.
Qed.

Lemma failure_contained_witness :
  process knox_rejecting_server knox tt =
    (Ok tt, tt,
     [Lookup "dev_knox" (Ok None); Create knox (Raise server_error)] ++
     [Print "An exception occured: Internal Server Error (500)"]) ∧
  outcome (main knox_rejecting_server tt) = Ok tt ∧
  lookups (events (main knox_rejecting_server tt)) = name <$> services.
Proof.
  pose proof (failure_contained knox_rejecting_server
                [hdfs; yarn; hive; hbase; kafka] knox [kms; trino]
                tt tt tt _ _ server_error
                eq_refl eq_refl eq_refl) as (Hstep & _ & Hrun).
  split; [exact Hstep|].
  apply Hrun. split.
  - intros n s e. discriminate.
  - intros service s e. simpl.
    destruct (String.eqb (name service) "dev_knox"); simpl.
    + intros [= <-]. reflexivity.
    + discriminate.
Defined.

(** ** Services that exist already *)

(** C2.  For every descriptor of the catalog, if the lookup made for it
    returns a service without raising, the step for this descriptor calls
    no creation, and no creation call of the whole run is for a service of
    this name. *)
Theorem present_never_created {St} (c : RangerClient St)
    (before : list RangerService) (service : RangerService)
    (after : list RangerService) (s s0 s1 : St) (t0 : list event)
    (found : RangerService) :
  services = before ++ service :: after →
  register_all c before s = (Ok tt, s0, t0) →
  get_service c (name service) s0 = (Ok (Some found), s1) →
  creations (events (process c service s0)) = [] ∧
  name service ∉ name <$> creations (events (main c s)).
Proof.
  intros Hcat Hbefore Hget.
  assert (process c service s0 =
          (Ok tt, s1, [Lookup (name service) (Ok (Some found))])) as Hp.
  { rewrite process_eq, Hget. reflexivity. }
  split; [by rewrite Hp|].
  pose proof catalog_names_NoDup as Hnd.
  unfold main. rewrite Hcat in Hnd |- *.
  rewrite (register_all_app c before (service :: after) s s0 t0 Hbefore).
  rewrite register_all_cons, Hp.
  pose proof (register_all_creations c before s) as Hsub1.
  rewrite Hbefore in Hsub1. simpl in Hsub1.
  pose proof (register_all_creations c after s1) as Hsub2.
  destruct (register_all c after s1) as [[r s2] t2]. simpl in *.
  rewrite fmap_app, fmap_cons in Hnd.
  apply NoDup_app in Hnd as (_ & Hdisj & Hnd).
  apply NoDup_cons in Hnd as [Hafter _].
  unfold creations. rewrite omap_app. simpl.
  fold (creations t0) (creations t2).
  rewrite fmap_app. intros [Hin|Hin]%elem_of_app.
  - apply (Hdisj (name service)); [|left].
    apply list_elem_of_fmap in Hin as (x & -> & Hx).
    apply list_elem_of_fmap. exists x. split; [done|].
    by eapply elem_of_sublist.
  - apply Hafter.
    apply list_elem_of_fmap in Hin as (x & -> & Hx).
    apply list_elem_of_fmap. exists x. split; [done|].
    by eapply elem_of_sublist.
Qed.

Lemma present_never_created_witness :
  creations (events (process recording_server kafka
                       [hdfs; kafka; yarn; hive; hbase])) = [] ∧
  "dev_kafka" ∉
    name <$> creations (events (main recording_server [hdfs; kafka])).
Proof.
  exact (present_never_created recording_server
           [hdfs; yarn; hive; hbase] kafka [knox; kms; trino]
           [hdfs; kafka] [hdfs; kafka; yarn; hive; hbase]
           [hdfs; kafka; yarn; hive; hbase] _ kafka
           eq_refl eq_refl eq_refl).
Defined.

(** C9.  A descriptor whose lookup returns a service without raising
    leaves no line on the output: neither a "created" line nor an
    exception line. *)
Theorem present_is_silent {St} (c : RangerClient St)
    (service found : RangerService) (s s1 : St) :
  get_service c (name service) s = (Ok (Some found), s1) →
  stdout (events (process c service s)) = [].
Proof.
  intros Hget. rewrite process_eq, Hget. reflexivity.
Qed.

Lemma present_is_silent_witness :
  stdout (events (process recording_server hdfs [hdfs; kafka])) = [].
Proof.
  exact (present_is_silent recording_server hdfs hdfs
           [hdfs; kafka] [hdfs; kafka] eq_refl).
Defined.

(** ** The existence check *)

(** C8.  A call of the existence check makes one lookup and nothing else,
    and an exception of the lookup that is no JSON decode failure comes out
    of the check as it was raised. *)
Theorem existence_check_single_lookup {St} (c : RangerClient St)
    (service : RangerService) (s : St) :
  events (service_not_exists c service s) =
    [Lookup (name service) (get_service c (name service) s).1] ∧
  final (service_not_exists c service s) =
    (get_service c (name service) s).2 ∧
  ∀ e, (get_service c (name service) s).1 = Raise e →
       isinstance e JSONDecodeError = false →
       outcome (service_not_exists c service s) = Raise e.
Proof.
  rewrite service_not_exists_eq.
  destruct (get_service c (name service) s) as [[[v|]|e] s1]; simpl.
  - repeat split. intros e [=].
  - repeat split. intros e [=].
  - destruct (isinstance e JSONDecodeError) eqn:He; repeat split.
    + intros e' [= <-]. congruence.
    + intros e' [= <-] _. reflexivity.
Qed.

Lemma existence_check_single_lookup_witness :
  events (service_not_exists unreachable_server hdfs tt) =
    [Lookup "dev_hdfs" (Raise connection_error)] ∧
  outcome (service_not_exists unreachable_server hdfs tt) =
    Raise connection_error.
Proof.
  destruct (existence_check_single_lookup unreachable_server hdfs tt)
    as (Hev & _ & Hraise).
  split; [exact Hev|].
  exact (Hraise connection_error eq_refl eq_refl).
Defined.

(** C3.  When the lookup raises a JSON decode failure, the existence check
    answers 1 ("absent") and the creation is called for the descriptor; the
    step ends, leaves the client and prints exactly as it does from a state
    in which the lookup answers "not found". *)
Theorem decode_failure_as_absent {St} (c : RangerClient St)
    (service : RangerService) (s s' s1 : St) (e : exn) :
  get_service c (name service) s = (Raise e, s1) →
  isinstance e JSONDecodeError = true →
  get_service c (name service) s' = (Ok None, s1) →
  outcome (service_not_exists c service s) = Ok 1%Z ∧
  outcome (service_not_exists c service s') = Ok 1%Z ∧
  creations (events (process c service s)) = [service] ∧
  creations (events (process c service s')) = [service] ∧
  outcome (process c service s) = outcome (process c service s') ∧
  final (process c service s) = final (process c service s') ∧
  stdout (events (process c service s)) =
    stdout (events (process c service s')).
Proof.
  intros Hget He Hget'.
  rewrite !service_not_exists_eq, !process_eq, Hget, Hget', He.
  unfold attempt.
  destruct (create_service c service s1) as [[v|e'] s2]; simpl.
  - repeat split.
  - destruct (isinstance e' Exception); repeat split.
Qed.

Lemma decode_failure_as_absent_witness :
  outcome (service_not_exists garbling_server hdfs true) = Ok 1%Z ∧
  creations (events (process garbling_server hdfs true)) = [hdfs] ∧
  stdout (events (process garbling_server hdfs true)) =
    stdout (events (process garbling_server hdfs false)).
Proof.
  destruct (decode_failure_as_absent garbling_server hdfs true false false
              decode_error eq_refl eq_refl eq_refl)
    as (H1 & _ & H3 & _ & _ & _ & H7).
  exact (conj H1 (conj H3 H7)).
Defined.

(** ** The lines printed *)

(** C7, as the spec writes the lines: the "created" line starts with a
    space, so it is not the name followed by " service created!"; and a
    step that fails with an exception outside [Exception] prints no line. *)
Lemma created_line_has_leading_space :
  stdout (events (process recording_server hdfs [])) =
    [" dev_hdfs service created!"] ∧
  stdout (events (process recording_server hdfs [])) ≠
    [name hdfs +:+ " service created!"] ∧
  outcome (process interrupted_creation hdfs tt) = Raise keyboard_interrupt ∧
  stdout (events (process interrupted_creation hdfs tt)) = [].
Proof. repeat split. discriminate. Qed.

(** C7, amended.  The step for a descriptor prints: one line, a space, the
    descriptor's name and " service created!", when the check-or-create
    step ends normally after a creation call; one line, "An exception
    occured: " and the exception's text, when that step raises an instance
    of [Exception]; and nothing otherwise. *)
Theorem output_lines {St} (c : RangerClient St)
    (service : RangerService) (s : St) :
  stdout (events (process c service s)) =
  match check_or_create c service s with
  | (Ok _, _, t) =>
      if creations t is [] then []
      else [" " +:+ name service +:+ " service created!"]
  | (Raise e, _, _) =>
      if isinstance e Exception
      then ["An exception occured: " +:+ exn_str e]
      else []
  end.
Proof.
  unfold process, try_except.
  unfold check_or_create, bind. rewrite service_not_exists_eq.
  unfold call_create_service, print, ret.
  destruct (get_service c (name service) s) as [[[v|]|e] s1]; simpl.
  - reflexivity.
  - destruct (create_service c service s1) as [[v|e] s2]; simpl;
      [reflexivity|]. by destruct (isinstance e Exception).
  - destruct (isinstance e JSONDecodeError); simpl.
    + destruct (create_service c service s1) as [[v|e'] s2]; simpl;
        [reflexivity|]. by destruct (isinstance e' Exception).
    + by destruct (isinstance e Exception).
Qed.

(** ** A server without services *)

Lemma register_all_on_empty_server {St} (c : RangerClient St) catalog s :
  forallb not_found_or_created (events (register_all c catalog s)) = true →
  outcome (register_all c catalog s) = Ok tt ∧
  creations (events (register_all c catalog s)) = catalog ∧
  stdout (events (register_all c catalog s)) = created_line <$> catalog.
Proof.
  revert s. induction catalog as [|x l IH]; intros s; [done|].
  rewrite register_all_cons, process_eq. unfold attempt.
  destruct (get_service c (name x) s) as [[[v|]|e] s1].
  - destruct (register_all c l s1) as [[r s2] t2]. discriminate.
  - destruct (create_service c x s1) as [[v|e] s2].
    + specialize (IH s2).
      destruct (register_all c l s2) as [[r s3] t3].
      unfold outcome, events in *. simpl in *.
      intros H. destruct (IH H) as (-> & -> & ->). done.
    + destruct (isinstance e Exception); [|discriminate].
      destruct (register_all c l s2) as [[r s3] t3]. discriminate.
  - destruct (isinstance e JSONDecodeError).
    + destruct (create_service c x s1) as [[v|e'] s2].
      * destruct (register_all c l s2) as [[r s3] t3]. discriminate.
      * destruct (isinstance e' Exception); [|discriminate].
        destruct (register_all c l s2) as [[r s3] t3]. discriminate.
    + destruct (isinstance e Exception); [|discriminate].
      destruct (register_all c l s1) as [[r s2] t2]. discriminate.
Qed.

(** C4.  If every lookup of the run is answered "not found" and every
    creation call of the run succeeds, the run makes exactly eight creation
    calls, one per catalog entry in catalog order, and prints exactly eight
    "created" lines. *)
Theorem empty_server_eight_creations {St} (c : RangerClient St) (s : St) :
  forallb not_found_or_created (events (main c s)) = true →
  outcome (main c s) = Ok tt ∧
  creations (events (main c s)) = services ∧
  length (creations (events (main c s))) = 8 ∧
  stdout (events (main c s)) =
    [" dev_hdfs service created!"; " dev_yarn service created!";
     " dev_hive service created!"; " dev_hbase service created!";
     " dev_kafka service created!"; " dev_knox service created!";
     " dev_kms service created!"; " dev_trino service created!"] ∧
  length (stdout (events (main c s))) = 8.
Proof.
  intros H.
  destruct (register_all_on_empty_server c services s H) as (Ho & Hc & Hp).
  unfold main. rewrite Ho, Hc, Hp. repeat split.
Qed.

Lemma empty_server_eight_creations_witness :
  creations (events (main recording_server [])) = services ∧
  length (stdout (events (main recording_server []))) = 8.
Proof.
  destruct (empty_server_eight_creations recording_server [] eq_refl)
    as (_ & Hc & _ & _ & Hn).
  exact (conj Hc Hn).
Defined.

(** ** The run as a function of the client's answers *)

Lemma responses_app t1 t2 :
  responses (t1 ++ t2) = responses t1 ++ responses t2.
Proof. apply omap_app. Qed.

(** The answers a step received, followed by anything, tell what the step
    did and where its answers end. *)
Lemma process_determined {St1 St2} (c1 : RangerClient St1)
    (c2 : RangerClient St2) service s1 s2 rest1 rest2 :
  responses (events (process c1 service s1)) ++ rest1 =
  responses (events (process c2 service s2)) ++ rest2 →
  events (process c1 service s1) = events (process c2 service s2) ∧
  outcome (process c1 service s1) = outcome (process c2 service s2) ∧
  rest1 = rest2.
Proof.
  rewrite !process_eq. unfold attempt.
  destruct (get_service c1 (name service) s1) as [r1 s1'].
  destruct (get_service c2 (name service) s2) as [r2 s2'].
  destruct (create_service c1 service s1') as [q1 s1''].
  destruct (create_service c2 service s2') as [q2 s2''].
  destruct r1 as [[v1|]|e1], r2 as [[v2|]|e2]; simpl;
    try (intros [=]; simplify_eq; done);
    repeat match goal with
           | |- context [isinstance ?e ?k] => destruct (isinstance e k) eqn:?
           end; simpl;
    destruct q1 as [w1|e1'], q2 as [w2|e2']; simpl;
    repeat match goal with
           | |- context [isinstance ?e ?k] => destruct (isinstance e k) eqn:?
           end; simpl;
    intros [=]; simplify_eq; try done; congruence.
Qed.

Lemma register_all_determined {St1 St2} (c1 : RangerClient St1)
    (c2 : RangerClient St2) catalog s1 s2 :
  responses (events (register_all c1 catalog s1)) =
  responses (events (register_all c2 catalog s2)) →
  events (register_all c1 catalog s1) = events (register_all c2 catalog s2) ∧
  outcome (register_all c1 catalog s1) = outcome (register_all c2 catalog s2).
Proof.
  revert s1 s2. induction catalog as [|x l IH]; intros s1 s2; [done|].
  rewrite !register_all_cons.
  pose proof (process_determined c1 c2 x s1 s2) as Hstep.
  destruct (process c1 x s1) as [[[[]|e1] s1'] t1],
           (process c2 x s2) as [[[[]|e2] s2'] t2]; simpl in Hstep.
  - specialize (IH s1' s2').
    destruct (register_all c1 l s1') as [[r1 s1''] u1],
             (register_all c2 l s2') as [[r2 s2''] u2].
    unfold outcome, events in *. simpl in *.
    rewrite !responses_app. intros H.
    destruct (Hstep _ _ H) as (-> & _ & Hrest).
    destruct (IH Hrest) as [-> ->]. done.
  - destruct (register_all c1 l s1') as [[r1 s1''] u1]. simpl.
    rewrite responses_app. intros H.
    rewrite <- (right_id_L [] (++) (responses t2)) in H.
    by destruct (Hstep _ _ H) as (_ & [=] & _).
  - destruct (register_all c2 l s2') as [[r2 s2''] u2]. simpl.
    rewrite responses_app. intros H.
    rewrite <- (right_id_L [] (++) (responses t1)) in H.
    by destruct (Hstep _ _ H) as (_ & [=] & _).
  - simpl. intros H.
    specialize (Hstep [] []). rewrite !(right_id_L [] (++)) in Hstep.
    destruct (Hstep H) as (-> & [= ->] & _). done.
Qed.

(** C10.  Two runs of the script in which the clients give the same
    sequence of lookup results and creation outcomes make the same creation
    calls and print the same lines, and end the same way. *)
Theorem run_determined_by_responses {St1 St2} (c1 : RangerClient St1)
    (c2 : RangerClient St2) (s1 : St1) (s2 : St2) :
  responses (events (main c1 s1)) = responses (events (main c2 s2)) →
  creations (events (main c1 s1)) = creations (events (main c2 s2)) ∧
  stdout (events (main c1 s1)) = stdout (events (main c2 s2)) ∧
  outcome (main c1 s1) = outcome (main c2 s2).
Proof.
  intros H.
  destruct (register_all_determined c1 c2 services s1 s2 H) as [Hev Hout].
  unfold main. rewrite Hev, Hout. done.
Qed.

Lemma run_determined_by_responses_witness :
  creations (events (main recording_server [])) =
    creations (events (main forgetful_server tt)) ∧
  stdout (events (main recording_server [])) =
    stdout (events (main forgetful_server tt)).
Proof.
  destruct (run_determined_by_responses recording_server forgetful_server
              [] tt eq_refl) as (Hc & Hp & _).
  exact (conj Hc Hp).
Defined.

(** * Further properties of the script *)

(** ** A lookup that fails *)

(** X1.  When the lookup of a descriptor raises an exception that is no JSON
    decode failure, the step for the descriptor makes no creation call: the
    lookup is its only call, the client is left as the lookup left it, and
    the only output is the exception line, printed when the exception is an
    instance of [Exception]. *)
Theorem lookup_failure_skips_creation {St} (c : RangerClient St)
    (service : RangerService) (s s1 : St) (e : exn) :
  get_service c (name service) s = (Raise e, s1) →
  isinstance e JSONDecodeError = false →
  creations (events (process c service s)) = [] ∧
  responses (events (process c service s)) = [LookupResult (Raise e)] ∧
  final (process c service s) = s1 ∧
  stdout (events (process c service s)) =
    (if isinstance e Exception
     then ["An exception occured: " +:+ exn_str e] else []).
Proof.
  intros Hget He. rewrite process_eq, Hget, He.
  destruct (isinstance e Exception); repeat split.
Qed.

Lemma lookup_failure_skips_creation_witness :
  creations (events (process unreachable_server hdfs tt)) = [] ∧
  stdout (events (process unreachable_server hdfs tt)) =
    ["An exception occured: Connection refused"].
Proof.
  destruct (lookup_failure_skips_creation unreachable_server hdfs tt tt
              connection_error eq_refl eq_refl) as (Hc & _ & _ & Hp).
  exact (conj Hc Hp).
Defined.

(** ** How a run ends *)

Lemma process_raise {St} (c : RangerClient St) service s e :
  outcome (process c service s) = Raise e →
  isinstance e Exception = false ∧
  ∃ t ev, events (process c service s) = t ++ [ev] ∧ raised_by ev = Some e.
Proof.
  rewrite process_eq. unfold attempt.
  destruct (get_service c (name service) s) as [[[v|]|e0] s1]; simpl.
  - discriminate.
  - destruct (create_service c service s1) as [[v|e1] s2]; simpl;
      [discriminate|].
    destruct (isinstance e1 Exception) eqn:He1; simpl; [discriminate|].
    intros [= <-]. split; [done|].
    by exists [Lookup (name service) (Ok None)],
              (Create service (Raise e1)).
  - destruct (isinstance e0 JSONDecodeError).
    + destruct (create_service c service s1) as [[v|e1] s2]; simpl;
        [discriminate|].
      destruct (isinstance e1 Exception) eqn:He1; simpl; [discriminate|].
      intros [= <-]. split; [done|].
      by exists [Lookup (name service) (Raise e0)],
                (Create service (Raise e1)).
    + destruct (isinstance e0 Exception) eqn:He0; simpl; [discriminate|].
      intros [= <-]. split; [done|].
      by exists [], (Lookup (name service) (Raise e0)).
Qed.

(** X2.  A run over any catalog that ends with an exception ends with one
    that is no instance of [Exception], and the call of the client that
    raised it is the last thing the run did: no call and no line follows
    it. *)
Theorem escaped_exception_ends_run {St} (c : RangerClient St)
    (catalog : list RangerService) (s : St) (e : exn) :
  outcome (register_all c catalog s) = Raise e →
  isinstance e Exception = false ∧
  ∃ t ev, events (register_all c catalog s) = t ++ [ev] ∧
          raised_by ev = Some e.
Proof.
  revert s. induction catalog as [|x l IH]; intros s; [discriminate|].
  rewrite register_all_cons.
  pose proof (process_raise c x s) as Hstep.
  destruct (process c x s) as [[[[]|e0] s1] t1]; simpl in Hstep.
  - specialize (IH s1).
    destruct (register_all c l s1) as [[r s2] t2].
    unfold outcome, events in *. simpl in *.
    intros Hr. destruct (IH Hr) as (He & t & ev & -> & Hev).
    split; [done|]. exists (t1 ++ t), ev.
    by rewrite (assoc_L (++)).
  - intros [= <-]. exact (Hstep e0 eq_refl).
Qed.

Lemma escaped_exception_ends_run_witness :
  isinstance keyboard_interrupt Exception = false ∧
  ∃ t ev, events (main interrupted_creation tt) = t ++ [ev] ∧
          raised_by ev = Some keyboard_interrupt.
Proof.
  exact (escaped_exception_ends_run interrupted_creation services tt
           keyboard_interrupt eq_refl).
Defined.

(** X3.  A run over any catalog that ends normally has looked up every
    descriptor of the catalog exactly once, in catalog order. *)
Theorem normal_end_checks_every_descriptor {St} (c : RangerClient St)
    (catalog : list RangerService) (s : St) :
  outcome (register_all c catalog s) = Ok tt →
  lookups (events (register_all c catalog s)) = name <$> catalog.
Proof.
  revert s. induction catalog as [|x l IH]; intros s; [done|].
  rewrite register_all_cons.
  pose proof (process_lookups c x s) as Hlk.
  destruct (process c x s) as [[[[]|e0] s1] t1]; [|discriminate].
  specialize (IH s1).
  destruct (register_all c l s1) as [[r s2] t2].
  unfold outcome, events in *. simpl in *.
  intros Hr. unfold lookups. rewrite omap_app.
  fold (lookups t1) (lookups t2). by rewrite Hlk, (IH Hr).
Qed.

Lemma normal_end_checks_every_descriptor_witness :
  lookups (events (main unreachable_server tt)) = name <$> services.
Proof.
  exact (normal_end_checks_every_descriptor unreachable_server services tt
           eq_refl).
Defined.

(** ** Check, then create *)

Lemma checked_before_created_app t t' :
  checked_before_created t → checked_before_created t' →
  checked_before_created (t ++ t').
Proof.
  intros Ht Ht' t1 service r t2 Heq.
  apply List.app_eq_app in Heq as [l [[-> Hl]|[-> Hl]]].
  - destruct l as [|ev l].
    + simpl in Hl.
      destruct (Ht' [] service r t2 (eq_sym Hl)) as (t0 & r0 & H0 & _).
      by destruct t0.
    + injection Hl as <- ->. by apply (Ht t1 service r l).
  - destruct (Ht' l service r t2 Hl) as (t0 & r0 & -> & Hr0).
    exists (t ++ t0), r0. by rewrite (assoc_L (++)).
Qed.

Lemma process_checked_before_created {St} (c : RangerClient St) service s :
  checked_before_created (events (process c service s)).
Proof.
  rewrite process_eq. unfold attempt.
  destruct (get_service c (name service) s) as [[[v|]|e0] s1]; simpl.
  - intros [|? [|? ?]] ? ? ? [=].
  - destruct (create_service c service s1) as [[v|e1] s2]; simpl;
      [|destruct (isinstance e1 Exception)]; simpl;
      intros [|? [|? [|? [|? ?]]]] ? ? ? [=]; simplify_eq;
      by exists [], (Ok None).
  - destruct (isinstance e0 JSONDecodeError) eqn:He0.
    + destruct (create_service c service s1) as [[v|e1] s2]; simpl;
        [|destruct (isinstance e1 Exception)]; simpl;
        intros [|? [|? [|? [|? ?]]]] ? ? ? [=]; simplify_eq;
        by exists [], (Raise e0).
    + destruct (isinstance e0 Exception); simpl;
        intros [|? [|? [|? ?]]] ? ? ? [=].
Qed.

(** X4.  In a run over any catalog, against any client, a creation is never
    called unchecked: every creation call comes right after a lookup of the
    name of the very service submitted, and that lookup answered "not
    found" or raised a JSON decode failure. *)
Theorem creation_only_after_absent_lookup {St} (c : RangerClient St)
    (catalog : list RangerService) (s : St)
    (t1 t2 : list event) (service : RangerService)
    (r : result (option RangerService)) :
  events (register_all c catalog s) = t1 ++ Create service r :: t2 →
  ∃ t0 r0, t1 = t0 ++ [Lookup (name service) r0] ∧
           reports_absent r0 = true.
Proof.
  revert t1 service r t2.
  change (checked_before_created (events (register_all c catalog s))).
  revert s. induction catalog as [|x l IH]; intros s.
  - intros [|? ?] ? ? ? [=].
  - destruct (events_register_all_cons c x l s) as (t & -> & Ht).
    apply checked_before_created_app.
    + apply process_checked_before_created.
    + destruct Ht as [->|[s1 ->]]; [|apply IH].
      intros [|? ?] ? ? ? [=].
Qed.

Lemma creation_only_after_absent_lookup_witness :
  ∃ t0 r0,
    [Lookup "dev_hdfs" (Ok None); Create hdfs (Ok (Some hdfs));
     Print " dev_hdfs service created!"; Lookup "dev_yarn" (Ok None)] =
    t0 ++ [Lookup (name yarn) r0] ∧
    reports_absent r0 = true.
Proof.
  exact (creation_only_after_absent_lookup recording_server services []
           [Lookup "dev_hdfs" (Ok None); Create hdfs (Ok (Some hdfs));
            Print " dev_hdfs service created!"; Lookup "dev_yarn" (Ok None)]
           _ yarn (Ok (Some yarn)) eq_refl).
Defined.

(** ** A server that answers every call *)

(** X5.  If no call of a run raises, the run ends normally after looking up
    every descriptor of the catalog, the services it submits for creation
    are exactly those whose lookup answered "not found", in catalog order,
    and its output is one "created" line for each of them. *)
Theorem run_without_failures {St} (c : RangerClient St)
    (catalog : list RangerService) (s : St) :
  forallb answered (events (register_all c catalog s)) = true →
  outcome (register_all c catalog s) = Ok tt ∧
  lookups (events (register_all c catalog s)) = name <$> catalog ∧
  name <$> creations (events (register_all c catalog s)) =
    absent_lookups (events (register_all c catalog s)) ∧
  stdout (events (register_all c catalog s)) =
    created_line <$> creations (events (register_all c catalog s)).
Proof.
  revert s. induction catalog as [|x l IH]; intros s; [done|].
  rewrite register_all_cons, process_eq. unfold attempt.
  destruct (get_service c (name x) s) as [[[v|]|e] s1].
  - specialize (IH s1).
    destruct (register_all c l s1) as [[r s2] t2].
    unfold outcome, events in *. simpl in *.
    intros H. destruct (IH H) as (-> & -> & -> & ->). done.
  - destruct (create_service c x s1) as [[v|e] s2].
    + specialize (IH s2).
      destruct (register_all c l s2) as [[r s3] t3].
      unfold outcome, events in *. simpl in *.
      intros H. destruct (IH H) as (-> & -> & Hn & ->).
      repeat split. f_equal. exact Hn.
    + destruct (isinstance e Exception); [|discriminate].
      destruct (register_all c l s2) as [[r s3] t3]. discriminate.
  - destruct (isinstance e JSONDecodeError).
    + destruct (create_service c x s1) as [[v|e'] s2].
      * destruct (register_all c l s2) as [[r s3] t3]. discriminate.
      * destruct (isinstance e' Exception); [|discriminate].
        destruct (register_all c l s2) as [[r s3] t3]. discriminate.
    + destruct (isinstance e Exception); [|discriminate].
      destruct (register_all c l s1) as [[r s2] t2]. discriminate.
Qed.

Lemma run_without_failures_witness :
  creations (events (main recording_server [hdfs; kafka])) =
    [yarn; hive; hbase; knox; kms; trino] ∧
  stdout (events (main recording_server [hdfs; kafka])) =
    [" dev_yarn service created!"; " dev_hive service created!";
     " dev_hbase service created!"; " dev_knox service created!";
     " dev_kms service created!"; " dev_trino service created!"].
Proof.
  destruct (run_without_failures recording_server services [hdfs; kafka]
              eq_refl) as (_ & _ & _ & Hp).
  split; [reflexivity|exact Hp].
Defined.

(** ** The output, line by line *)

(** X6.  The output of a run over any catalog is read off the calls of the
    client, in their order: one "created" line after each creation that
    returned, one exception line after each call that raised an instance of
    [Exception] other than a JSON decode failure of a lookup, and nothing
    else. *)
Theorem output_follows_calls {St} (c : RangerClient St)
    (catalog : list RangerService) (s : St) :
  stdout (events (register_all c catalog s)) =
  omap line_after (events (register_all c catalog s)).
Proof.
  revert s. induction catalog as [|x l IH]; intros s; [done|].
  destruct (events_register_all_cons c x l s) as (t & -> & Ht).
  unfold stdout at 1. rewrite !omap_app. fold (stdout t).
  fold (stdout (events (process c x s))).
  f_equal.
  - rewrite process_eq. unfold attempt.
    destruct (get_service c (name x) s) as [[[v|]|e0] s1]; simpl.
    + done.
    + destruct (create_service c x s1) as [[v|e1] s2]; simpl; [done|].
      destruct (isinstance e1 Exception) eqn:He1; simpl; by rewrite ?He1.
    + destruct (isinstance e0 JSONDecodeError) eqn:He0; simpl.
      * destruct (create_service c x s1) as [[v|e1] s2]; simpl;
          rewrite ?He0; [done|].
        destruct (isinstance e1 Exception) eqn:He1; simpl;
          by rewrite ?He0, ?He1.
      * destruct (isinstance e0 Exception) eqn:He0'; simpl;
          by rewrite ?He0, ?He0'.
  - destruct Ht as [->|[s1 ->]]; [done|apply IH].
Qed.

(** X7.  A run over any catalog makes at most one lookup per descriptor of
    the catalog, and per lookup at most one creation call and at most one
    line of output: nothing is retried and nothing is reported twice. *)
Theorem one_attempt_per_descriptor {St} (c : RangerClient St)
    (catalog : list RangerService) (s : St) :
  (length (lookups (events (register_all c catalog s))) ≤
     length catalog)%nat ∧
  (length (creations (events (register_all c catalog s))) ≤
     length (lookups (events (register_all c catalog s))))%nat ∧
  (length (stdout (events (register_all c catalog s))) ≤
     length (lookups (events (register_all c catalog s))))%nat.
Proof.
  split.
  { rewrite <- (length_fmap name catalog).
    apply prefix_length, register_all_lookups. }
  revert s. induction catalog as [|x l IH]; intros s; [simpl; lia|].
  destruct (events_register_all_cons c x l s) as (t & -> & Ht).
  unfold creations, stdout, lookups. rewrite !omap_app, !length_app.
  fold (creations t) (stdout t) (lookups t).
  fold (creations (events (process c x s)))
       (stdout (events (process c x s)))
       (lookups (events (process c x s))).
  assert ((length (creations t) ≤ length (lookups t))%nat ∧
          (length (stdout t) ≤ length (lookups t))%nat) as [Hc Hp].
  { destruct Ht as [->|[s1 ->]]; [simpl; lia|apply IH]. }
  assert ((length (creations (events (process c x s))) ≤ 1)%nat ∧
          (length (stdout (events (process c x s))) ≤ 1)%nat) as [Hc1 Hp1].
  { rewrite process_eq. unfold attempt.
    destruct (get_service c (name x) s) as [[[v|]|e0] s1]; simpl;
      repeat case_match; simpl; lia. }
  rewrite process_lookups. simpl. lia.
Qed.

(** ** Running the script again *)

Section Durable.
Context {St : Type} (c : RangerClient St) (registered : St → string → Prop).
Hypothesis Hdurable : durable c registered.

Lemma process_keeps_registered service s m :
  registered s m → registered (final (process c service s)) m.
Proof.
  destruct Hdurable as (_ & Hget & Hcreate & _).
  intros Hm. rewrite process_eq. unfold attempt.
  specialize (Hget (name service) m s Hm).
  destruct (get_service c (name service) s) as [r s1]. simpl in Hget.
  specialize (Hcreate service m s1 Hget).
  destruct (create_service c service s1) as [r' s2]. simpl in Hcreate.
  destruct r as [[v|]|e]; simpl; repeat case_match; done.
Qed.

Lemma register_all_keeps_registered catalog s m :
  registered s m → registered (final (register_all c catalog s)) m.
Proof.
  revert s. induction catalog as [|x l IH]; intros s Hm; [done|].
  rewrite register_all_cons.
  pose proof (process_keeps_registered x s m Hm) as Hstep.
  destruct (process c x s) as [[[[]|e] s1] t1]; [|done].
  specialize (IH s1 Hstep).
  by destruct (register_all c l s1) as [[r s2] t2].
Qed.

(** A registered name is found, so nothing is created for it. *)
Lemma process_registered service s :
  registered s (name service) →
  creations (events (process c service s)) = [].
Proof.
  destruct Hdurable as (Hfound & _).
  intros Hm. rewrite process_eq.
  destruct (Hfound _ _ Hm) as [found Hf].
  destruct (get_service c (name service) s) as [r s1]. simpl in Hf.
  by subst r.
Qed.

Lemma process_registered_other service s m :
  registered s m →
  m ∉ name <$> creations (events (process c service s)).
Proof.
  intros Hm.
  destruct (process_creations c service s) as [Hc|Hc]; rewrite Hc.
  - apply not_elem_of_nil.
  - intros ->%list_elem_of_singleton.
    by rewrite (process_registered service s Hm) in Hc.
Qed.

Lemma register_all_registered catalog s m :
  registered s m →
  m ∉ name <$> creations (events (register_all c catalog s)).
Proof.
  revert s. induction catalog as [|x l IH]; intros s Hm.
  - apply not_elem_of_nil.
  - rewrite register_all_cons.
    pose proof (process_keeps_registered x s m Hm) as Hk.
    pose proof (process_registered_other x s m Hm) as Hstep.
    destruct (process c x s) as [[[[]|e] s1] t1]; [|done].
    specialize (IH s1 Hk).
    destruct (register_all c l s1) as [[r s2] t2].
    unfold final, events in *. simpl in *.
    unfold creations. rewrite omap_app, fmap_app.
    fold (creations t1) (creations t2).
    by intros [Hin|Hin]%elem_of_app.
Qed.

(** A creation that returned leaves its name registered to the end of the
    run. *)
Lemma created_stays_registered catalog s service v :
  Create service (Ok v) ∈ events (register_all c catalog s) →
  registered (final (register_all c catalog s)) (name service).
Proof.
  revert s. induction catalog as [|x l IH]; intros s.
  - intros Hin. by apply elem_of_nil in Hin.
  - rewrite register_all_cons.
    assert (Create service (Ok v) ∈ events (process c x s) →
            registered (final (process c x s)) (name service) ∧
            outcome (process c x s) = Ok tt) as Hstep.
    { destruct Hdurable as (_ & _ & _ & Hreg).
      rewrite process_eq. unfold attempt.
      destruct (get_service c (name x) s) as [r s1].
      specialize (Hreg x s1).
      destruct (create_service c x s1) as [r' s2]. simpl in Hreg.
      destruct r as [[w|]|e]; simpl; repeat case_match; simpl;
        rewrite ?elem_of_cons, ?elem_of_nil; intros Hin;
        repeat destruct Hin as [Hin|Hin]; try done; simplify_eq;
        unfold final, outcome; simpl; split; eauto. }
    destruct (process c x s) as [[[[]|e] s1] t1].
    + specialize (IH s1).
      pose proof (register_all_keeps_registered l s1 (name service)) as Hk.
      destruct (register_all c l s1) as [[r s2] t2].
      unfold final, events, outcome in *. simpl in *.
      intros [Hin|Hin]%elem_of_app; [|by apply IH].
      apply Hk. by apply Hstep.
    + unfold final, events, outcome in *. simpl in *.
      intros Hin. by destruct (Hstep Hin) as [_ [=]].
Qed.

End Durable.

Lemma recording_server_durable : durable recording_server recorded.
Proof.
  unfold durable, recorded. simpl. repeat split.
  - intros n s Hn. apply existsb_exists in Hn as (x & Hx & Hname).
    destruct (find (has_name n) s) as [found|] eqn:Hfind; [eauto|].
    by rewrite (find_none _ _ Hfind x Hx) in Hname.
  - done.
  - intros service m s Hm.
    destruct (existsb (has_name (name service)) s); simpl; [done|].
    rewrite existsb_app, Hm. done.
  - intros service s v.
    destruct (existsb (has_name (name service)) s) eqn:Hex; simpl;
      [discriminate|].
    intros _. rewrite existsb_app. simpl. unfold has_name at 2.
    rewrite String.eqb_refl. by rewrite orb_true_r.
Qed.

(** X8.  Against a client behind which registrations last, a service whose
    creation returned in one run is not submitted again by a run that
    follows it, whatever the catalog: the second run finds it and skips
    it. *)
Theorem created_once_across_runs {St} (c : RangerClient St)
    (registered : St → string → Prop)
    (catalog : list RangerService) (s : St)
    (service : RangerService) (v : option RangerService) :
  durable c registered →
  Create service (Ok v) ∈ events (register_all c catalog s) →
  name service ∉
    name <$> creations
      (events (register_all c catalog (final (register_all c catalog s)))).
Proof.
  intros Hd Hin.
  apply (register_all_registered c registered Hd).
  by apply (created_stays_registered c registered Hd catalog s service v).
Qed.

Lemma created_once_across_runs_witness :
  "dev_hdfs" ∉
    name <$> creations
      (events (main recording_server
                 (final (main recording_server [])))).
Proof.
  apply (created_once_across_runs recording_server recorded services []
           hdfs (Some hdfs) recording_server_durable).
  apply list_elem_of_further, list_elem_of_here.
Defined.
